(** * Lifecycle operations of the control plane: status aggregation,
      operation manager and operation store

    The development has three parts.

    - [gopanic], [runtime] and [command] embed
      [tools/cli/pkg/command/runtime.go]: the selection of the operation
      that defines the status of a runtime ([findLastOperation]) and its
      rendering as a label ([operationStatusToString]).
    - [storage] and [process] hold the operation store and the operation
      manager exercised by
      [components/kyma-environment-broker/internal/process/upgrade_kyma_operation_test.go].
    - [application] embeds the in-memory repository of
      [components/director/internal/domain/application/repository.go].
*)

From Stdlib Require Import ZArith String List Lia.
From stdpp Require Import base option strings list gmap.

Local Open Scope Z_scope.

(** ** Go run-time panics as an error monad *)

Module gopanic.

Inductive panic : Type :=
| NilDereference
| IndexOutOfRange.

Inductive result (A : Type) : Type :=
| Ok (a : A)
| Panic (p : panic).

Arguments Ok {A} a.
Arguments Panic {A} p.

#[export] Instance result_ret : MRet result := fun A a => Ok a.

#[export] Instance result_bind : MBind result := fun A B f m =>
  match m with
  | Ok a => f a
  | Panic p => Panic p
  end.

(** [*p] on a pointer that may be nil. *)
Definition deref {A : Type} (p : option A) : result A :=
  match p with
  | Some a => Ok a
  | None => Panic NilDereference
  end.

(** [s[0]] on a slice. *)
Definition index0 {A : Type} (s : list A) : result A :=
  match s with
  | a :: _ => Ok a
  | [] => Panic IndexOutOfRange
  end.

End gopanic.

(** ** The runtime DTO read by the CLI (package [common/runtime])

    The package is imported by [runtime.go] and declared outside the
    sources; the records below have the fields that [runtime.go] selects,
    with the types its expressions give them. *)

Module runtime.

(** An instant of [time.Time], as the number of nanoseconds since the epoch.
    [t.After(u)] compares instants. *)
Definition Time : Type := Z.

Definition After (t u : Time) : bool := u <? t.

(** Modelled from the spec: the operation record of section 3 as the CLI
    receives it ([runtime.Operation]). [runtime.go] reads [State], compared
    with the string constants of the command, and [CreatedAt]. *)
Record Operation : Type := mkOperation {
  State : string;
  Description : string;
  CreatedAt : Time;
  OperationID : string
}.

(** Modelled from the spec: the record set of one kind, newest first
    (section 4.3), as [runtime.OperationsData]: [runtime.go] reads the
    integer [Count] and the slice [Data], two fields of their own. *)
Record OperationsData : Type := mkOperationsData {
  Data : list Operation;
  Count : Z
}.

(** Modelled from the spec: the per-kind histories of one runtime
    (section 4.3), as [runtime.RuntimeStatus]. [Provisioning] and
    [Deprovisioning] are pointers ([*rt.Status.Provisioning],
    [rt.Status.Deprovisioning != nil]); the three operation lists are read
    without a nil test. *)
Record RuntimeStatus : Type := mkRuntimeStatus {
  Provisioning : option Operation;
  Deprovisioning : option Operation;
  UpgradingKyma : OperationsData;
  Suspension : OperationsData;
  Unsuspension : OperationsData
}.

(** [runtime.RuntimeDTO]: of its fields, [runtime.go] selects [Status] for
    the status column. *)
Record RuntimeDTO : Type := mkRuntimeDTO {
  Status : RuntimeStatus
}.

End runtime.

(** ** [tools/cli/pkg/command/runtime.go] *)

Module command.

Import gopanic runtime.

Local Open Scope string_scope.

Definition inProgress : string := "in progress".
Definition succeeded : string := "succeeded".
Definition failed : string := "failed".

(** [type operationType string] *)
Definition operationType : Type := string.

Definition provision : operationType := "provision".
Definition deprovision : operationType := "deprovision".
Definition upgradeKyma : operationType := "kyma upgrade".
Definition suspension : operationType := "suspension".
Definition unsuspension : operationType := "unsuspension".

(** The body of each of the three guarded assignments
    [if present && d.CreatedAt.After(op.CreatedAt) { op = d; opType = t }]. *)
Definition takeIfAfter (cur : Operation * operationType) (d : Operation)
    (t : operationType) : Operation * operationType :=
  if After (CreatedAt d) (CreatedAt cur.1) then (d, t) else cur.

Definition findLastOperation (rt : RuntimeDTO)
    : result (Operation * operationType) :=
  op ← deref (Provisioning (Status rt));
  let cur := (op, provision) in
  cur ← (if (0 <? Count (UpgradingKyma (Status rt)))%Z
         then d ← index0 (Data (UpgradingKyma (Status rt)));
              mret (d, upgradeKyma)
         else mret cur);
  cur ← (if (0 <? Count (Unsuspension (Status rt)))%Z
         then d ← index0 (Data (Unsuspension (Status rt)));
              mret (takeIfAfter cur d unsuspension)
         else mret cur);
  cur ← (if (0 <? Count (Suspension (Status rt)))%Z
         then d ← index0 (Data (Suspension (Status rt)));
              mret (takeIfAfter cur d suspension)
         else mret cur);
  mret (match Deprovisioning (Status rt) with
        | Some d => takeIfAfter cur d deprovision
        | None => cur
        end).

(** [fmt.Sprintf("%s (%s)", "failed", t)] *)
Definition sprintf_failed (t : operationType) : string :=
  "failed" ++ " (" ++ t ++ ")".

Definition operationStatusToString (op : Operation) (t : operationType)
    : string :=
  if String.eqb (State op) succeeded then
    if String.eqb t deprovision then "deprovisioned"
    else if String.eqb t suspension then "suspended"
    else "succeeded"
  else if String.eqb (State op) failed then sprintf_failed t
  else if String.eqb (State op) inProgress then
    if String.eqb t provision then "provisioning"
    else if String.eqb t unsuspension then "provisioning (unsuspending)"
    else if String.eqb t deprovision then "deprovisioning"
    else if String.eqb t suspension then "deprovisioning (suspending)"
    else if String.eqb t upgradeKyma then "upgrading"
    else "succeeded"
  else "succeeded".

(** [runtimeStatus], after the type assertion [obj.(runtime.RuntimeDTO)]. *)
Definition runtimeStatus (rt : RuntimeDTO) : result string :=
  r ← findLastOperation rt;
  mret (operationStatusToString r.1 r.2).

End command.

(** ** The operation store (package [internal/storage])

    The test file obtains the store from [storage.NewMemoryStorage()] and
    fills it with [InsertUpgradeKymaOperation]; the package itself is not
    among the sources. *)

Module storage.

Definition Time : Type := Z.

(** [time.Duration]: a signed count of nanoseconds. *)
Definition Duration : Type := Z.

Definition Second : Duration := 1000000000.
Definition Hour : Duration := 3600 * Second.

(** Modelled from the spec: the states of an operation (section 3,
    [State]: one of Pending, InProgress, Succeeded, Failed); the type of
    [domain.InProgress], [domain.Succeeded] and [domain.Failed] is declared
    outside the sources. *)
Inductive LastOperationState : Type :=
| Pending
| InProgress
| Succeeded
| Failed.

(** Modelled from the spec: the base operation record of section 3
    ([internal.Operation], declared outside the sources), with the fields
    that [fixUpgradeKymaOperation] fills in. *)
Record Operation : Type := mkOperation {
  ID : string;
  Version : Z;
  InstanceID : string;
  State : LastOperationState;
  Description : string;
  CreatedAt : Time;
  UpdatedAt : Time;
  ProvisionerOperationID : string
}.

Definition setState (st : LastOperationState) (op : Operation) : Operation :=
  mkOperation (ID op) (Version op) (InstanceID op) st (Description op)
    (CreatedAt op) (UpdatedAt op) (ProvisionerOperationID op).

Definition setDescription (d : string) (op : Operation) : Operation :=
  mkOperation (ID op) (Version op) (InstanceID op) (State op) d
    (CreatedAt op) (UpdatedAt op) (ProvisionerOperationID op).

(** The record as [Update] writes it: [Version + 1] and a fresh
    [UpdatedAt]. *)
Definition stamped (now : Time) (op : Operation) : Operation :=
  mkOperation (ID op) (Version op + 1) (InstanceID op) (State op)
    (Description op) (CreatedAt op) now (ProvisionerOperationID op).

(** Modelled from the spec: the error taxonomy of the store (section 7). *)
Inductive StoreError : Type :=
| AlreadyExists
| Conflict
| NotFound.

Inductive outcome (A : Type) : Type :=
| Stored (a : A)
| Rejected (e : StoreError).

Arguments Stored {A} a.
Arguments Rejected {A} e.

(** The in-memory variant of the store: records keyed by [ID]. *)
Abbreviation Store := (gmap string Operation).

(** Modelled from the spec: [Insert] of section 4.2, the contract of
    [InsertUpgradeKymaOperation]; fails with [AlreadyExists] if the ID is
    already present. *)
Definition Insert (s : Store) (op : Operation) : outcome Store :=
  match s !! ID op with
  | Some _ => Rejected AlreadyExists
  | None => Stored (<[ID op := op]> s)
  end.

(** Modelled from the spec: [Get] of section 4.2; fails with [NotFound] if
    the ID is absent. *)
Definition Get (s : Store) (id : string) : outcome Operation :=
  match s !! id with
  | Some op => Stored op
  | None => Rejected NotFound
  end.

(** Modelled from the spec: [Update] of section 4.2, one atomic
    compare-and-swap on the version (section 9). It requires the presented
    [Version] to equal the stored one; on success it persists the record
    with [Version + 1] and a fresh [UpdatedAt] and returns it; on mismatch
    it fails with [Conflict], and with [NotFound] for an absent ID. [now]
    is the wall-clock time of the call. *)
Definition Update (now : Time) (s : Store) (op : Operation)
    : outcome (Store * Operation) :=
  match s !! ID op with
  | None => Rejected NotFound
  | Some cur =>
      if Version op =? Version cur
      then Stored (<[ID op := stamped now op]> s, stamped now op)
      else Rejected Conflict
  end.

(** The snapshot [op] is current in [s]: its record is stored and the
    snapshot carries the stored version, the one its owner last read. *)
Definition isCurrent (s : Store) (op : Operation) : bool :=
  match s !! ID op with
  | Some cur => Version cur =? Version op
  | None => false
  end.

(** [storage.NewMemoryStorage()]: the empty in-memory store. *)
Definition NewMemoryStorage : Store := ∅.

(** *** Workers racing on the store

    Section 5: concurrent transitions on one operation are serialised by
    the version check of the store alone. A worker is one [Update] call in
    flight; a step lets any waiting worker perform its call, as a whole.
    What is modelled is the order in which the store serves the calls, not
    their execution side by side. *)

Inductive worker : Type :=
| Waiting (now : Time) (op : Operation)
| Returned (r : outcome Operation).

Definition returned (w : worker) : bool :=
  match w with
  | Returned _ => true
  | Waiting _ _ => false
  end.

Definition config : Type := Store * list worker.

Definition perform (now : Time) (op : Operation) (i : nat) (c : config)
    : config :=
  match Update now c.1 op with
  | Stored (s', op') => (s', <[i := Returned (Stored op')]> c.2)
  | Rejected e => (c.1, <[i := Returned (Rejected e)]> c.2)
  end.

Inductive step : config -> config -> Prop :=
| step_perform (c : config) (i : nat) (now : Time) (op : Operation) :
    c.2 !! i = Some (Waiting now op) ->
    step c (perform now op i c).

Definition final (c : config) : Prop := forallb returned c.2 = true.

(** A race of two workers on the record [id], stored with version [v], is
    decided: exactly one call succeeded, with the record [w] that is now
    stored, the other one failed with [Conflict], and the stored version
    is [v + 1]. *)
Definition decided (id : string) (v : Z) (c : config) : Prop :=
  exists w,
    (c.2 = [Returned (Stored w); Returned (Rejected Conflict)] \/
     c.2 = [Returned (Rejected Conflict); Returned (Stored w)]) /\
    c.1 !! id = Some w /\
    Version w = v + 1.

(** Two workers about to update, and the two ways their race can end: won
    by the first worker, or by the second. *)
Definition raceStart (s : Store) (now1 : Time) (op1 : Operation)
    (now2 : Time) (op2 : Operation) : config :=
  (s, [Waiting now1 op1; Waiting now2 op2]).

Definition wonByFirst (s : Store) (now1 : Time) (op1 : Operation) : config :=
  (<[ID op1 := stamped now1 op1]> s,
   [Returned (Stored (stamped now1 op1)); Returned (Rejected Conflict)]).

Definition wonBySecond (s : Store) (now2 : Time) (op2 : Operation) : config :=
  (<[ID op2 := stamped now2 op2]> s,
   [Returned (Rejected Conflict); Returned (Stored (stamped now2 op2))]).

(** A stored record, and two updates of it presenting its version. *)
Definition racedRecord : Operation :=
  mkOperation "op-1" 4 "instance-1" InProgress "step 3" 100 200 EmptyString.

Definition racedStore : Store := {[ "op-1"%string := racedRecord ]}.

End storage.

(** ** The operation manager (package [internal/process])

    [upgrade_kyma_operation_test.go] calls [NewUpgradeKymaOperationManager],
    [OperationSucceeded], [OperationFailed] and [RetryOperation]; their
    bodies are not among the sources. The spec calls the three transitions
    Succeed, Fail and Retry. *)

Module process.

Import storage.

(** Modelled from the spec: the manager holds no mutable state of its own
    (section 5); what [NewUpgradeKymaOperationManager] fixes is the bound on
    the re-read-and-retry rounds after a [Conflict] (section 4.2). *)
Record UpgradeKymaOperationManager : Type := NewUpgradeKymaOperationManager {
  conflictRetries : nat
}.

(** Modelled from the spec: the errors a transition returns (section 7).
    [ErrOperationFailed] carries the message given to Fail,
    [ErrRetryExhausted] the exhausted budget and the original message,
    [ErrStorage] what the store reported. *)
Inductive error : Type :=
| ErrOperationFailed (msg : string)
| ErrRetryExhausted (maxTime : Duration) (msg : string)
| ErrStorage (e : StoreError).


(** What a transition hands back to the orchestration engine:
    (operation, delay, error-or-nil). *)
Definition reply : Type := Operation * Duration * option error.

Definition replyOperation (r : reply) : Operation := r.1.1.
Definition replyDelay (r : reply) : Duration := r.1.2.
Definition replyError (r : reply) : option error := r.2.

(** What the logger collaborator receives at a retry decision. *)
Inductive logEntry : Type :=
| RetryDecision (errorMessage : string) (elapsed maxTime : Duration)
    (permitted : bool).

(** Modelled from the spec: section 4.2, the bounded retry of [Update] on
    [Conflict], re-reading the latest version and reapplying the same
    logical transition [f]; any other store error is surfaced at once. *)
Fixpoint persist (retries : nat) (now : Time) (s : Store)
    (f : Operation -> Operation) (op : Operation)
    : outcome (Store * Operation) :=
  match Update now s (f op) with
  | Stored r => Stored r
  | Rejected Conflict =>
      match retries with
      | O => Rejected Conflict
      | S n =>
          match Get s (ID op) with
          | Stored latest => persist n now s f latest
          | Rejected e => Rejected e
          end
      end
  | Rejected e => Rejected e
  end.


(** Modelled from the spec: the transition to [Failed] shared by Fail and
    by an exhausted Retry (section 4.1). Sets [State = Failed], replaces
    [Description] with the failure message, persists; once the record is
    written the error [err] is returned, although the write succeeded. A
    storage failure is surfaced as for Succeed (sections 4.2 and 7). *)
Definition failWith (om : UpgradeKymaOperationManager)
    (now : Time) (s : Store) (op : Operation) (err : error)
    (description : string) : Store * reply :=
  match persist (conflictRetries om) now s
          (fun o => setDescription description (setState Failed o)) op with
  | Stored (s', op') => (s', (op', 0, Some err))
  | Rejected e => (s, (op, 0, Some (ErrStorage e)))
  end.


(** Modelled from the spec: the retry policy of section 2, a pure function
    of the elapsed time and the deadline. *)
Definition retryPermitted (elapsed maxTime : Duration) : bool :=
  elapsed <? maxTime.

(** Modelled from the spec: the delay of step 3 of Retry,
    [retryInterval - (elapsed mod retryInterval)]. *)
Definition retryDelay (elapsed retryInterval : Duration) : Duration :=
  retryInterval - elapsed mod retryInterval.

(** Modelled from the spec: Retry of section 4.1, steps 1 to 4. The
    decision is logged before anything is persisted. With the budget
    exhausted the operation is failed, with the effect of Fail and an error
    that describes the exhaustion; otherwise [State] is left as it is,
    [Description] is replaced, the record is persisted and the delay to the
    next attempt is returned. *)
Definition RetryOperation (om : UpgradeKymaOperationManager)
    (now : Time) (s : Store) (log : list logEntry) (op : Operation)
    (errorMessage : string) (retryInterval maxTime : Duration)
    : Store * list logEntry * reply :=
  let elapsed := now - UpdatedAt op in
  let log' :=
    log ++ [RetryDecision errorMessage elapsed maxTime
              (retryPermitted elapsed maxTime)] in
  if retryPermitted elapsed maxTime then
    match persist (conflictRetries om) now s
            (setDescription errorMessage) op with
    | Stored (s', op') =>
        (s', log', (op', retryDelay elapsed retryInterval, None))
    | Rejected e => (s, log', (op, 0, Some (ErrStorage e)))
    end
  else
    let r := failWith om now s op
               (ErrRetryExhausted maxTime errorMessage) errorMessage in
    (r.1, log', r.2).

(** A logical transition touches neither the key nor the version of a
    record. *)
Definition keepsIdentity (f : Operation -> Operation) : Prop :=
  forall o, ID (f o) = ID o /\ Version (f o) = Version o.

(** *** The fixtures of [upgrade_kyma_operation_test.go] *)

(** The zero [time.Time{}], January 1 of year 1, counted from the epoch. *)
Definition zeroTime : Time := -62135596800 * Second.


(** The operation of the retry test, [internal.UpgradeKymaOperation{}] with
    [UpdatedAt = time.Now()], taken in progress. *)
Definition fixRetriedOperation (st : LastOperationState) (now : Time)
    : Operation :=
  mkOperation EmptyString 0 EmptyString st EmptyString zeroTime now
    EmptyString.

(** The store of a test after its insert. *)
Definition storeWith (op : Operation) : Store :=
  match Insert NewMemoryStorage op with
  | Stored s => s
  | Rejected _ => NewMemoryStorage
  end.

(** The instant at which the sample calls are made. *)
Definition sampleNow : Time := 1600000000 * Second.

End process.

(** ** The status aggregator as the spec words it (section 4.3) *)

Module aggregator.

Import gopanic runtime command.

Definition candidate : Type := Operation * operationType.

(** The most recent record of a kind, as presented to the aggregator: the
    first element of a newest-first [Data], when [Count] announces one. *)
Definition mostRecent (d : OperationsData) : option Operation :=
  if 0 <? Count d then head (Data d) else None.

(** A list is presented consistently when a positive [Count] comes with at
    least one record. *)
Definition presented (d : OperationsData) : Prop :=
  0 < Count d -> Data d <> [].

(** "Replace the candidate with a kind's most recent record whenever that
    record's CreatedAt is strictly after the current candidate's." *)
Definition replaceIfNewer (c : candidate) (r : option Operation)
    (k : operationType) : candidate :=
  match r with
  | Some d => if After (CreatedAt d) (CreatedAt c.1) then (d, k) else c
  | None => c
  end.

(** Replace the candidate with a kind's most recent record whenever there
    is one. *)
Definition replaceIfPresent (c : candidate) (r : option Operation)
    (k : operationType) : candidate :=
  match r with
  | Some d => (d, k)
  | None => c
  end.

(** The algorithm of section 4.3 as worded: every kind is compared. *)
Definition selectAsWorded (p : Operation) (st : RuntimeStatus) : candidate :=
  let c := (p, provision) in
  let c := replaceIfNewer c (mostRecent (UpgradingKyma st)) upgradeKyma in
  let c := replaceIfNewer c (mostRecent (Unsuspension st)) unsuspension in
  let c := replaceIfNewer c (mostRecent (Suspension st)) suspension in
  replaceIfNewer c (Deprovisioning st) deprovision.

(** The same, with an Upgrade record taken whenever one is present. *)
Definition selectUpgradeFirst (p : Operation) (st : RuntimeStatus)
    : candidate :=
  let c := (p, provision) in
  let c := replaceIfPresent c (mostRecent (UpgradingKyma st)) upgradeKyma in
  let c := replaceIfNewer c (mostRecent (Unsuspension st)) unsuspension in
  let c := replaceIfNewer c (mostRecent (Suspension st)) suspension in
  replaceIfNewer c (Deprovisioning st) deprovision.

(** The kind presents no record created strictly after [t]. *)
Definition noneAfter (t : Time) (d : OperationsData) : Prop :=
  if 0 <? Count d
  then match Data d with
       | x :: _ => After (CreatedAt x) t = false
       | [] => False
       end
  else True.

(** The rows and columns of the label table. *)
Definition tableStates : list string := [inProgress; succeeded; failed].

Definition tableKinds : list operationType :=
  [provision; upgradeKyma; suspension; unsuspension; deprovision].



(** *** Sample runtimes *)

Definition op (st : string) (createdAt : Time) (id : string) : Operation :=
  mkOperation st EmptyString createdAt id.

Definition noOperations : OperationsData := mkOperationsData [] 0.

Definition one (o : Operation) : OperationsData := mkOperationsData [o] 1.

(** Provisioned at 10; the upgrade record carries the earlier instant 5. *)
Definition rtUpgradeOlder : RuntimeDTO :=
  mkRuntimeDTO
    (mkRuntimeStatus (Some (op inProgress 10 "p")) None
       (one (op inProgress 5 "u")) noOperations noOperations).

(** Provisioned at 10, upgrading since 20, deprovisioning since 30. *)
Definition rtUpgradeThenDeprovision : RuntimeDTO :=
  mkRuntimeDTO
    (mkRuntimeStatus (Some (op inProgress 10 "p"))
       (Some (op inProgress 30 "d"))
       (one (op inProgress 20 "u")) noOperations noOperations).

(** Provisioning since 10, upgrading since 20, a suspension recorded at
    15. *)
Definition rtUpgrading : RuntimeDTO :=
  mkRuntimeDTO
    (mkRuntimeStatus (Some (op inProgress 10 "p")) None
       (one (op inProgress 20 "u")) (one (op succeeded 15 "s"))
       noOperations).

(** No provisioning record, although an upgrade and a deprovisioning are
    recorded. *)
Definition rtNoProvisioning : RuntimeDTO :=
  mkRuntimeDTO
    (mkRuntimeStatus None (Some (op inProgress 30 "d"))
       (one (op inProgress 20 "u")) noOperations noOperations).

End aggregator.

(** ** What the selection reads and what it can return *)

Module selection.

Import gopanic runtime command aggregator.

Local Open Scope string_scope.

(** A record that is there, under the kind it would be reported with. *)
Definition tagged (k : operationType) (r : option Operation)
    : list candidate :=
  match r with
  | Some d => [(d, k)]
  | None => []
  end.

(** The records that compete for the status of a runtime, in the order in
    which [findLastOperation] considers them. The first one is the upgrade
    record when one is presented and the provisioning record [p] otherwise;
    then come the unsuspension, the suspension and the deprovisioning
    record, as far as they are there. *)
Definition contenders (p : Operation) (st : RuntimeStatus) : list candidate :=
  replaceIfPresent (p, provision) (mostRecent (UpgradingKyma st)) upgradeKyma
  :: tagged unsuspension (mostRecent (Unsuspension st))
  ++ tagged suspension (mostRecent (Suspension st))
  ++ tagged deprovision (Deprovisioning st).

(** [c] stands at index [i] of [l], no element of [l] was created after
    it, and every element before it was created strictly earlier. *)
Definition leftmostNewest (l : list candidate) (i : nat) (c : candidate)
    : Prop :=
  l !! i = Some c /\
  (forall j x, l !! j = Some x -> (CreatedAt x.1 <= CreatedAt c.1)%Z) /\
  (forall j x, (j < i)%nat -> l !! j = Some x ->
     (CreatedAt x.1 < CreatedAt c.1)%Z).

(** One guarded assignment, on a record with its kind. *)
Definition consider (c x : candidate) : candidate := takeIfAfter c x.1 x.2.

(** A list of operations cut down to what the guards of
    [findLastOperation] can see of it: whether [Count] is positive, and
    [Data[0]]. *)
Definition firstOnly (d : OperationsData) : OperationsData :=
  if (0 <? Count d)%Z
  then mkOperationsData (take 1 (Data d)) 1
  else mkOperationsData [] 0.

Definition firstOnlyStatus (rt : RuntimeDTO) : RuntimeDTO :=
  mkRuntimeDTO
    (mkRuntimeStatus (Provisioning (Status rt)) (Deprovisioning (Status rt))
       (firstOnly (UpgradingKyma (Status rt)))
       (firstOnly (Suspension (Status rt)))
       (firstOnly (Unsuspension (Status rt)))).

(** The labels of the status column. *)
Definition statusLabels : list string :=
  ["succeeded"; "suspended"; "deprovisioned";
   "failed (provision)"; "failed (kyma upgrade)"; "failed (suspension)";
   "failed (unsuspension)"; "failed (deprovision)";
   "provisioning"; "upgrading"; "deprovisioning (suspending)";
   "provisioning (unsuspending)"; "deprovisioning"].

(** *** Sample runtimes *)

(** Suspended at 30 and deprovisioned at the same instant 30, after an
    upgrade at 20. *)
Definition rtSuspendedAndDeprovisioned : RuntimeDTO :=
  mkRuntimeDTO
    (mkRuntimeStatus (Some (op succeeded 10 "p")) (Some (op succeeded 30 "d"))
       (one (op succeeded 20 "u")) (one (op succeeded 30 "s"))
       noOperations).

(** An upgrade list that is not sorted: the record created at 40 comes
    second; and an unsuspension list whose [Count] is 0 although a record
    is there. *)
Definition rtUnsorted : RuntimeDTO :=
  mkRuntimeDTO
    (mkRuntimeStatus (Some (op succeeded 10 "p")) None
       (mkOperationsData [op succeeded 20 "u1"; op inProgress 40 "u2"] 2)
       noOperations
       (mkOperationsData [op inProgress 50 "n"] 0)).

(** A suspension list that announces a record and holds none. *)
Definition rtMiscounted : RuntimeDTO :=
  mkRuntimeDTO
    (mkRuntimeStatus (Some (op succeeded 10 "p")) None
       noOperations (mkOperationsData [] 1) noOperations).

End selection.

(** ** The in-memory application repository
      ([components/director/internal/domain/application/repository.go])

    The packages [model], [labelfilter] and [pagination] are imported by
    the file and declared outside the sources. *)

Module application.

Import gopanic.

(** A Go [error]; every method of the repository returns the nil one. *)
Definition error : Type := string.

(** [pagination.Page], with the fields that [List] fills in. *)
Record Page : Type := mkPage {
  StartCursor : string;
  EndCursor : string;
  HasNextPage : bool
}.

Section repository.

(** [model.Application] and [labelfilter.LabelFilter] are parameters; of an
    application the repository reads the field [ID] only. *)
Context {Application LabelFilter : Type}.
Variable ID : Application -> string.

(** [model.ApplicationPage], with the fields that [List] fills in. *)
Record ApplicationPage : Type := mkApplicationPage {
  Data : list Application;
  TotalCount : Z;
  PageInfo : Page
}.

(** [inMemoryRepository]: the map [store] from an ID to the application
    kept under it. The map holds the pointers it is given; the repository
    never writes through them, so an entry is the application pointed
    to. *)
Record inMemoryRepository : Type := mkRepository {
  store : gmap string Application
}.

Definition NewRepository : inMemoryRepository := mkRepository ∅.

(** [r.store[id]]: the nil pointer for a missing key, and never an
    error. *)
Definition GetByID (r : inMemoryRepository) (id : string)
    : option Application * option error :=
  (store r !! id, None).

(** [for _, r := range r.store { items = append(items, r) }], run over the
    entries in the order [entries] in which [range] yields them. *)
Definition collect (entries : list (string * Application))
    : list Application :=
  foldl (fun items kv => items ++ [kv.2]) [] entries.

(** Go leaves the order in which [range] yields the entries of a map
    open: it yields each entry once, in some order. *)
Definition rangeOf (r : inMemoryRepository)
    (entries : list (string * Application)) : Prop :=
  entries ≡ₚ map_to_list (store r).

(** [List], run with [range] yielding [entries]. The filter, the page size
    and the cursor are not read. *)
Definition List (r : inMemoryRepository)
    (entries : list (string * Application))
    (filter : list (option LabelFilter)) (pageSize : option Z)
    (cursor : option string) : ApplicationPage * option error :=
  let items := collect entries in
  (mkApplicationPage items (Z.of_nat (length items))
     (mkPage EmptyString EmptyString false),
   None).

(** [r.store[item.ID] = item]; [item.ID] on a nil [item] panics. *)
Definition Create (r : inMemoryRepository) (item : option Application)
    : result (inMemoryRepository * option error) :=
  x ← deref item;
  mret (mkRepository (<[ID x := x]> (store r)), None).

Definition Update (r : inMemoryRepository) (item : option Application)
    : result (inMemoryRepository * option error) :=
  x ← deref item;
  mret (mkRepository (<[ID x := x]> (store r)), None).

(** [delete(r.store, item.ID)] *)
Definition Delete (r : inMemoryRepository) (item : option Application)
    : result (inMemoryRepository * option error) :=
  x ← deref item;
  mret (mkRepository (delete (ID x) (store r)), None).

(** One call after the other on the repository that the first call
    leaves. *)
Definition andThen (c : result (inMemoryRepository * option error))
    (k : inMemoryRepository -> result (inMemoryRepository * option error))
    : result (inMemoryRepository * option error) :=
  p ← c; k p.1.

(** The repositories that [NewRepository] and the three writing methods
    produce. *)
Inductive reachable : inMemoryRepository -> Prop :=
| reachable_new : reachable NewRepository
| reachable_create (r r' : inMemoryRepository) (item : option Application)
    (e : option error) :
    reachable r -> Create r item = Ok (r', e) -> reachable r'
| reachable_update (r r' : inMemoryRepository) (item : option Application)
    (e : option error) :
    reachable r -> Update r item = Ok (r', e) -> reachable r'
| reachable_delete (r r' : inMemoryRepository) (item : option Application)
    (e : option error) :
    reachable r -> Delete r item = Ok (r', e) -> reachable r'.

End repository.

(** *** Sample applications *)

Record sampleApplication : Type := mkSample {
  sampleID : string;
  sampleName : string
}.

Definition wordpress : sampleApplication := mkSample "app-1" "wordpress".
Definition wordpress2 : sampleApplication := mkSample "app-1" "wordpress 2".
Definition commerce : sampleApplication := mkSample "app-2" "commerce".

(** The repository after [Create(wordpress)]. *)
Definition oneApplication : inMemoryRepository :=
  mkRepository {[ "app-1"%string := wordpress ]}.

(** The repository after [Create(wordpress)] and [Create(commerce)]. *)
Definition twoApplications : inMemoryRepository :=
  mkRepository (<["app-2"%string := commerce]> {[ "app-1"%string := wordpress ]}).

End application.

(** * Properties of the status aggregator *)

Module command_spec.

Import gopanic runtime command aggregator.

Local Open Scope string_scope.

Lemma After_spec (t u : Time) : After t u = true <-> (u < t)%Z.
Proof. unfold After. apply Z.ltb_lt. Qed.

Lemma After_irrefl (t : Time) : After t t = false.
Proof. unfold After. apply Z.ltb_irrefl. Qed.

Lemma replaceIfNewer_kept (c : candidate) (d : Operation) (k : operationType) :
  After (CreatedAt d) (CreatedAt c.1) = false ->
  replaceIfNewer c (Some d) k = c.
Proof. intros H. unfold replaceIfNewer. now rewrite H. Qed.

Lemma replaceIfNewer_taken (c : candidate) (d : Operation) (k : operationType) :
  After (CreatedAt d) (CreatedAt c.1) = true ->
  replaceIfNewer c (Some d) k = (d, k).
Proof. intros H. unfold replaceIfNewer. now rewrite H. Qed.

(** One guarded assignment of [findLastOperation] over a list of records is
    one [replaceIfNewer] of the kind's most recent record. *)
Lemma guarded_list_step (d : OperationsData) (c : candidate)
    (k : operationType) :
  presented d ->
  (if (0 <? Count d)%Z
   then x ← index0 (Data d); mret (takeIfAfter c x k)
   else mret c)
  = Ok (replaceIfNewer c (mostRecent d) k).
Proof.
  intros Hd. unfold presented, mostRecent in *.
  destruct (0 <? Count d)%Z eqn:Hc; [| reflexivity].
  apply Z.ltb_lt in Hc. specialize (Hd Hc).
  destruct (Data d) as [| x xs]; [congruence |]. reflexivity.
Qed.

Lemma upgrade_step (d : OperationsData) (c : candidate) :
  presented d ->
  (if (0 <? Count d)%Z
   then x ← index0 (Data d); mret (x, upgradeKyma)
   else mret c)
  = Ok (replaceIfPresent c (mostRecent d) upgradeKyma).
Proof.
  intros Hd. unfold presented, mostRecent in *.
  destruct (0 <? Count d)%Z eqn:Hc; [| reflexivity].
  apply Z.ltb_lt in Hc. specialize (Hd Hc).
  destruct (Data d) as [| x xs]; [congruence |]. reflexivity.
Qed.

Lemma deprovisioning_step (r : option Operation) (c : candidate) :
  match r with
  | Some d => takeIfAfter c d deprovision
  | None => c
  end = replaceIfNewer c r deprovision.
Proof. destruct r; reflexivity. Qed.

(** The selection computed by [findLastOperation], when it does not
    panic. *)
Lemma findLastOperation_select (rt : RuntimeDTO) (p : Operation) :
  Provisioning (Status rt) = Some p ->
  presented (UpgradingKyma (Status rt)) ->
  presented (Unsuspension (Status rt)) ->
  presented (Suspension (Status rt)) ->
  findLastOperation rt = Ok (selectUpgradeFirst p (Status rt)).
Proof.
  intros Hp Hu Hn Hs. unfold findLastOperation, selectUpgradeFirst.
  rewrite Hp. cbn [deref mbind result_bind].
  rewrite (upgrade_step _ _ Hu). cbn [mbind result_bind].
  rewrite (guarded_list_step _ _ _ Hn). cbn [mbind result_bind].
  rewrite (guarded_list_step _ _ _ Hs). cbn [mbind result_bind].
  rewrite deprovisioning_step. reflexivity.
Qed.

(** C1 (as amended): starting from the Provisioning record, the most recent
    Upgrade record replaces the candidate whenever one is presented, without
    any comparison; then, for Unsuspension, Suspension and Deprovisioning in
    this order, the candidate is replaced by the kind's most recent record
    exactly when that record's CreatedAt is strictly after the candidate's,
    and is left unchanged otherwise. *)
Theorem findLastOperation_selectUpgradeFirst (rt : RuntimeDTO) (p : Operation) :
  Provisioning (Status rt) = Some p ->
  presented (UpgradingKyma (Status rt)) ->
  presented (Unsuspension (Status rt)) ->
  presented (Suspension (Status rt)) ->
  let st := Status rt in
  let c0 := (p, provision) in
  let c1 := replaceIfPresent c0 (mostRecent (UpgradingKyma st)) upgradeKyma in
  let c2 := replaceIfNewer c1 (mostRecent (Unsuspension st)) unsuspension in
  let c3 := replaceIfNewer c2 (mostRecent (Suspension st)) suspension in
  let c4 := replaceIfNewer c3 (Deprovisioning st) deprovision in
  findLastOperation rt = Ok c4 /\
  (forall (c : candidate) (d : Operation) (k : operationType),
     replaceIfNewer c (Some d) k
     = if After (CreatedAt d) (CreatedAt c.1) then (d, k) else c) /\
  (forall (c : candidate) (k : operationType), replaceIfNewer c None k = c) /\
  (forall (c : candidate) (d : Operation) (k : operationType),
     replaceIfPresent c (Some d) k = (d, k)) /\
  (forall (c : candidate) (k : operationType), replaceIfPresent c None k = c).
Proof.
  intros Hp Hu Hn Hs. cbv zeta. split; [| repeat split].
  now apply findLastOperation_select.
Qed.

Lemma findLastOperation_selectUpgradeFirst_witness :
  findLastOperation rtUpgrading = Ok (op inProgress 20 "u", upgradeKyma).
Proof.
  destruct (findLastOperation_selectUpgradeFirst rtUpgrading
              (op inProgress 10 "p")) as [H _];
    [reflexivity
    | unfold presented; simpl; first [intros _; discriminate | lia] ..
    | exact H].
Defined.

(** C1 (as worded) fails: the upgrade record of [rtUpgradeOlder] is not
    strictly newer than the provisioning record, and it is selected all the
    same, where the wording keeps the provisioning record. *)
Lemma findLastOperation_upgrade_not_compared :
  let p := op inProgress 10 "p" in
  let u := op inProgress 5 "u" in
  Provisioning (Status rtUpgradeOlder) = Some p /\
  mostRecent (UpgradingKyma (Status rtUpgradeOlder)) = Some u /\
  After (CreatedAt u) (CreatedAt p) = false /\
  selectAsWorded p (Status rtUpgradeOlder) = (p, provision) /\
  findLastOperation rtUpgradeOlder = Ok (u, upgradeKyma) /\
  findLastOperation rtUpgradeOlder
    <> Ok (selectAsWorded p (Status rtUpgradeOlder)).
Proof. repeat split; try reflexivity. vm_compute. discriminate. Qed.

(** C6: the label of every (state, kind) pair of the table. The rows are
    the states in progress, succeeded and failed; the columns the kinds
    provision, upgrade, suspend, unsuspend and deprovision. *)
Theorem operationStatusToString_table (d : string) (c : Time) (id : string) :
  let row (st : string) :=
    map (operationStatusToString (mkOperation st d c id)) tableKinds in
  row inProgress =
    ["provisioning"; "upgrading"; "deprovisioning (suspending)";
     "provisioning (unsuspending)"; "deprovisioning"] /\
  row succeeded =
    ["succeeded"; "succeeded"; "suspended"; "succeeded"; "deprovisioned"] /\
  row failed =
    ["failed (provision)"; "failed (kyma upgrade)"; "failed (suspension)";
     "failed (unsuspension)"; "failed (deprovision)"].
Proof. repeat split. Qed.

(** A failed operation is labelled with its kind, whatever the kind. *)
Lemma operationStatusToString_failed (o : Operation) (t : operationType) :
  State o = failed ->
  operationStatusToString o t = "failed (" ++ t ++ ")".
Proof. intros H. unfold operationStatusToString. rewrite H. reflexivity. Qed.





Lemma noneAfter_presented (t : Time) (d : OperationsData) :
  noneAfter t d -> presented d.
Proof.
  unfold noneAfter, presented. intros H Hc. apply Z.ltb_lt in Hc.
  rewrite Hc in H. destruct (Data d); [contradiction | discriminate].
Qed.

Lemma noneAfter_kept (c : candidate) (d : OperationsData) (k : operationType) :
  noneAfter (CreatedAt c.1) d -> replaceIfNewer c (mostRecent d) k = c.
Proof.
  unfold noneAfter, mostRecent, replaceIfNewer.
  destruct (0 <? Count d)%Z; [| reflexivity].
  destruct (Data d) as [| x xs]; [contradiction |].
  cbn [head]. now intros ->.
Qed.

(** The upgrade record is selected as soon as no other kind presents a
    record created strictly after it. *)
Lemma findLastOperation_upgrade (rt : RuntimeDTO) (p u : Operation)
    (us : list Operation) :
  Provisioning (Status rt) = Some p ->
  (0 < Count (UpgradingKyma (Status rt)))%Z ->
  Data (UpgradingKyma (Status rt)) = u :: us ->
  noneAfter (CreatedAt u) (Unsuspension (Status rt)) ->
  noneAfter (CreatedAt u) (Suspension (Status rt)) ->
  match Deprovisioning (Status rt) with
  | Some d => After (CreatedAt d) (CreatedAt u) = false
  | None => True
  end ->
  findLastOperation rt = Ok (u, upgradeKyma).
Proof.
  intros Hp Hc Hd Hn Hs Hx.
  rewrite (findLastOperation_select rt p Hp);
    [| unfold presented; rewrite Hd; discriminate
     | eapply noneAfter_presented; eassumption ..].
  unfold selectUpgradeFirst.
  assert (Hm : mostRecent (UpgradingKyma (Status rt)) = Some u).
  { unfold mostRecent. apply Z.ltb_lt in Hc. now rewrite Hc, Hd. }
  rewrite Hm. cbn [replaceIfPresent].
  rewrite (noneAfter_kept (u, upgradeKyma) _ unsuspension Hn).
  rewrite (noneAfter_kept (u, upgradeKyma) _ suspension Hs).
  destruct (Deprovisioning (Status rt)) as [d |]; [| reflexivity].
  cbn [replaceIfNewer fst]. now rewrite Hx.
Qed.

(** C8 (as amended): with a Provisioning record created at T0 and an
    Upgrade record created at T1 > T0, both in progress, and no
    Unsuspension, Suspension or Deprovisioning record created strictly
    after T1, the aggregated label is upgrading. *)
Theorem runtimeStatus_upgrading (rt : RuntimeDTO) (p u : Operation)
    (us : list Operation) :
  Provisioning (Status rt) = Some p ->
  (0 < Count (UpgradingKyma (Status rt)))%Z ->
  Data (UpgradingKyma (Status rt)) = u :: us ->
  (CreatedAt p < CreatedAt u)%Z ->
  State p = inProgress ->
  State u = inProgress ->
  noneAfter (CreatedAt u) (Unsuspension (Status rt)) ->
  noneAfter (CreatedAt u) (Suspension (Status rt)) ->
  match Deprovisioning (Status rt) with
  | Some d => After (CreatedAt d) (CreatedAt u) = false
  | None => True
  end ->
  runtimeStatus rt = Ok "upgrading" /\ runtimeStatus rt <> Ok "provisioning".
Proof.
  intros Hp Hc Hd _ _ Hu Hn Hs Hx. unfold runtimeStatus.
  rewrite (findLastOperation_upgrade rt p u us Hp Hc Hd Hn Hs Hx).
  cbn [mbind result_bind mret result_ret fst snd].
  unfold operationStatusToString. rewrite Hu. split; [reflexivity | discriminate].
Qed.

Lemma runtimeStatus_upgrading_witness :
  runtimeStatus rtUpgrading = Ok "upgrading" /\
  runtimeStatus rtUpgrading <> Ok "provisioning".
Proof.
  apply (runtimeStatus_upgrading rtUpgrading (op inProgress 10 "p")
           (op inProgress 20 "u") []);
    solve [reflexivity | exact I].
Defined.

(** C8 (as worded) fails: [rtUpgradeThenDeprovision] contains a
    Provisioning record created at 10 and an Upgrade record created at 20,
    both in progress, and its label is deprovisioning, for the
    deprovisioning that started at 30. *)
Lemma runtimeStatus_later_deprovisioning :
  Provisioning (Status rtUpgradeThenDeprovision) = Some (op inProgress 10 "p") /\
  UpgradingKyma (Status rtUpgradeThenDeprovision) = one (op inProgress 20 "u") /\
  runtimeStatus rtUpgradeThenDeprovision = Ok "deprovisioning" /\
  runtimeStatus rtUpgradeThenDeprovision <> Ok "upgrading".
Proof. repeat split. discriminate. Qed.

(** C10: without a Provisioning record the selection panics on the nil
    dereference, whatever the other kinds hold, and so does the status
    column; a selection that returns has found a Provisioning record. *)
Theorem findLastOperation_nil_provisioning (rt : RuntimeDTO) :
  Provisioning (Status rt) = None ->
  findLastOperation rt = Panic NilDereference /\
  runtimeStatus rt = Panic NilDereference.
Proof.
  intros H. unfold runtimeStatus, findLastOperation. rewrite H. split; reflexivity.
Qed.

Lemma findLastOperation_nil_provisioning_witness :
  mostRecent (UpgradingKyma (Status rtNoProvisioning))
    = Some (op inProgress 20 "u") /\
  Deprovisioning (Status rtNoProvisioning) = Some (op inProgress 30 "d") /\
  findLastOperation rtNoProvisioning = Panic NilDereference /\
  runtimeStatus rtNoProvisioning = Panic NilDereference.
Proof.
  split; [reflexivity |]. split; [reflexivity |].
  apply findLastOperation_nil_provisioning. reflexivity.
Defined.

(** A positive [Count] over an empty [Data] makes the selection panic on
    [Data[0]]. *)
Lemma findLastOperation_empty_data (rt : RuntimeDTO) (p : Operation) :
  Provisioning (Status rt) = Some p ->
  (0 < Count (UpgradingKyma (Status rt)))%Z ->
  Data (UpgradingKyma (Status rt)) = [] ->
  findLastOperation rt = Panic IndexOutOfRange.
Proof.
  intros Hp Hc Hd. unfold findLastOperation. apply Z.ltb_lt in Hc.
  now rewrite Hp, Hc, Hd.
Qed.

(** A selection that returns has found a Provisioning record. *)
Lemma findLastOperation_returns (rt : RuntimeDTO) (r : candidate) :
  findLastOperation rt = Ok r -> Provisioning (Status rt) <> None.
Proof.
  unfold findLastOperation. intros H E. rewrite E in H. discriminate H.
Qed.

End command_spec.

(** * Properties of the operation store *)

Module storage_spec.

Import storage.

Lemma isCurrent_lookup (s : Store) (op : Operation) :
  isCurrent s op = true ->
  exists cur, s !! ID op = Some cur /\ Version cur = Version op.
Proof.
  unfold isCurrent. destruct (s !! ID op) as [cur |]; [| discriminate].
  intros H. apply Z.eqb_eq in H. eauto.
Qed.

Lemma Update_current (now : Time) (s : Store) (op : Operation) :
  isCurrent s op = true ->
  Update now s op = Stored (<[ID op := stamped now op]> s, stamped now op).
Proof.
  intros H. apply isCurrent_lookup in H as (cur & Hl & Hv).
  unfold Update. rewrite Hl, <- Hv, Z.eqb_refl. reflexivity.
Qed.

Lemma Update_stale (now : Time) (s : Store) (op cur : Operation) :
  s !! ID op = Some cur ->
  Version op <> Version cur ->
  Update now s op = Rejected Conflict.
Proof.
  intros Hl Hv. unfold Update. rewrite Hl.
  apply Z.eqb_neq in Hv. now rewrite Hv.
Qed.

(** ** Two workers racing on one record *)

Lemma step_inv (c c' : config) :
  step c c' ->
  exists i now op, c.2 !! i = Some (Waiting now op) /\ c' = perform now op i c.
Proof. intros H. inversion H; subst. eauto. Qed.

(** The worker that comes first wins: its record is stored with the next
    version. *)
Lemma perform_current (now : Time) (op : Operation) (i : nat) (c : config) :
  isCurrent c.1 op = true ->
  perform now op i c
  = (<[ID op := stamped now op]> c.1,
     <[i := Returned (Stored (stamped now op))]> c.2).
Proof.
  intros H. unfold perform. now rewrite (Update_current now c.1 op H).
Qed.

(** The worker that comes second finds the version moved on. *)
Lemma perform_stale (now : Time) (op cur : Operation) (i : nat) (c : config) :
  c.1 !! ID op = Some cur ->
  Version op <> Version cur ->
  perform now op i c = (c.1, <[i := Returned (Rejected Conflict)]> c.2).
Proof.
  intros Hl Hv. unfold perform. now rewrite (Update_stale now c.1 op cur Hl Hv).
Qed.

Section Race.

Variables (s : Store) (id : string) (cur op1 op2 : Operation).
Variables (now1 now2 : Time).

Hypothesis stored : s !! id = Some cur.
Hypothesis id1 : ID op1 = id.
Hypothesis id2 : ID op2 = id.
Hypothesis version1 : Version op1 = Version cur.
Hypothesis version2 : Version op2 = Version cur.

#[local] Abbreviation c0 := (raceStart s now1 op1 now2 op2).
#[local] Abbreviation c12 := (wonByFirst s now1 op1).
#[local] Abbreviation c21 := (wonBySecond s now2 op2).

Lemma race_current1 : isCurrent s op1 = true.
Proof using stored id1 version1.
  unfold isCurrent. rewrite id1, stored. apply Z.eqb_eq. now symmetry.
Qed.

Lemma race_current2 : isCurrent s op2 = true.
Proof using stored id2 version2.
  unfold isCurrent. rewrite id2, stored. apply Z.eqb_eq. now symmetry.
Qed.

Lemma race_first1 :
  perform now1 op1 0 c0
  = (<[ID op1 := stamped now1 op1]> s,
     [Returned (Stored (stamped now1 op1)); Waiting now2 op2]).
Proof using stored id1 version1.
  now rewrite perform_current by apply race_current1.
Qed.

Lemma race_first2 :
  perform now2 op2 1 c0
  = (<[ID op2 := stamped now2 op2]> s,
     [Waiting now1 op1; Returned (Stored (stamped now2 op2))]).
Proof using stored id2 version2.
  now rewrite perform_current by apply race_current2.
Qed.

Lemma race_second2 : perform now2 op2 1 (perform now1 op1 0 c0) = c12.
Proof using stored id1 id2 version1 version2.
  rewrite race_first1.
  rewrite (perform_stale now2 op2 (stamped now1 op1)); [reflexivity | |].
  - cbn [fst]. rewrite id2, <- id1. apply lookup_insert_eq.
  - cbn [stamped Version]. lia.
Qed.

Lemma race_second1 : perform now1 op1 0 (perform now2 op2 1 c0) = c21.
Proof using stored id1 id2 version1 version2.
  rewrite race_first2.
  rewrite (perform_stale now1 op1 (stamped now2 op2)); [reflexivity | |].
  - cbn [fst]. rewrite id1, <- id2. apply lookup_insert_eq.
  - cbn [stamped Version]. lia.
Qed.

Lemma race_decided12 : decided id (Version cur) c12.
Proof using id1 version1.
  exists (stamped now1 op1). split; [now left |].
  split; [rewrite <- id1; apply lookup_insert_eq | cbn [stamped Version]; lia].
Qed.

Lemma race_decided21 : decided id (Version cur) c21.
Proof using id2 version2.
  exists (stamped now2 op2). split; [now right |].
  split; [rewrite <- id2; apply lookup_insert_eq | cbn [stamped Version]; lia].
Qed.

(** Every complete run of the two workers ends in [c12] or in [c21]. *)
Lemma race_runs (c : config) :
  rtc step c0 c -> final c -> c = c12 \/ c = c21.
Proof using stored id1 id2 version1 version2.
  intros Hrun Hfin.
  apply rtc_inv in Hrun as [<- | (c1 & Hs1 & Hrun1)]; [discriminate Hfin |].
  apply step_inv in Hs1 as (i & now & op & Hi & ->).
  destruct i as [| [| i]]; cbn in Hi; [| | discriminate Hi];
    injection Hi as <- <-.
  - apply rtc_inv in Hrun1 as [<- | (c2 & Hs2 & Hrun2)].
    { rewrite race_first1 in Hfin. discriminate Hfin. }
    apply step_inv in Hs2 as (j & now & op & Hj & ->).
    rewrite race_first1 in Hj.
    destruct j as [| [| j]]; cbn in Hj; [discriminate Hj | | discriminate Hj].
    injection Hj as <- <-. rewrite race_second2 in Hrun2.
    apply rtc_inv in Hrun2 as [<- | (c3 & Hs3 & _)]; [now left |].
    apply step_inv in Hs3 as (k & now & op & Hk & _).
    destruct k as [| [| k]]; discriminate Hk.
  - apply rtc_inv in Hrun1 as [<- | (c2 & Hs2 & Hrun2)].
    { rewrite race_first2 in Hfin. discriminate Hfin. }
    apply step_inv in Hs2 as (j & now & op & Hj & ->).
    rewrite race_first2 in Hj.
    destruct j as [| [| j]]; cbn in Hj; [| discriminate Hj ..].
    injection Hj as <- <-. rewrite race_second1 in Hrun2.
    apply rtc_inv in Hrun2 as [<- | (c3 & Hs3 & _)]; [now right |].
    apply step_inv in Hs3 as (k & now & op & Hk & _).
    destruct k as [| [| k]]; discriminate Hk.
Qed.

Lemma race_completes : exists c, rtc step c0 c /\ final c.
Proof using stored id1 id2 version1 version2.
  exists c12. split; [| reflexivity].
  rewrite <- race_second2.
  eapply rtc_l; [apply (step_perform c0 0 now1 op1); reflexivity |].
  eapply rtc_l; [| apply rtc_refl].
  apply (step_perform _ 1 now2 op2). now rewrite race_first1.
Qed.

End Race.

(** The contract of [Update] when the store serves two calls on one stored
    record one after the other, both presenting the stored version.
    Whatever the order, the run completes, exactly one call succeeds, the
    other one fails with [Conflict], and the stored version has grown by
    exactly one. An update that presents another version than the stored
    one is rejected with [Conflict], and the store is left as it was. *)
Theorem Update_race (s : Store) (id : string) (cur : Operation) :
  s !! id = Some cur ->
  (forall (op1 op2 : Operation) (now1 now2 : Time),
     ID op1 = id -> ID op2 = id ->
     Version op1 = Version cur -> Version op2 = Version cur ->
     let c0 := raceStart s now1 op1 now2 op2 in
     (exists c, rtc step c0 c /\ final c) /\
     (forall c, rtc step c0 c -> final c -> decided id (Version cur) c)) /\
  (forall (op : Operation) (now : Time) (i : nat) (ws : list worker),
     ID op = id -> Version op <> Version cur ->
     Update now s op = Rejected Conflict /\
     (perform now op i (s, ws)).1 = s).
Proof.
  intros Hs. split.
  - intros op1 op2 now1 now2 H1 H2 Hv1 Hv2 c0. split.
    + now apply (race_completes s id cur).
    + intros c Hrun Hfin.
      destruct (race_runs s id cur op1 op2 now1 now2 Hs H1 H2 Hv1 Hv2 c Hrun Hfin)
        as [-> | ->].
      * now apply (race_decided12 s id cur).
      * now apply (race_decided21 s id cur).
  - intros op now i ws Hid Hv. rewrite <- Hid in Hs.
    split; [now apply (Update_stale now s op cur) |].
    now rewrite (perform_stale now op cur i (s, ws)).
Qed.

Lemma Update_race_witness :
  let a := setDescription "step 4 done" racedRecord in
  let b := setDescription "step 4 failed" racedRecord in
  let stale := setDescription "late" (stamped 250 racedRecord) in
  let c0 := raceStart racedStore 300 a 301 b in
  ((exists c, rtc step c0 c /\ final c) /\
   (forall c, rtc step c0 c -> final c -> decided "op-1" 4 c)) /\
  Update 302 racedStore stale = Rejected Conflict.
Proof.
  destruct (Update_race racedStore "op-1" racedRecord) as [Hrace Hstale];
    [vm_compute; reflexivity |].
  split.
  - apply (Hrace (setDescription "step 4 done" racedRecord)
             (setDescription "step 4 failed" racedRecord) 300 301);
      reflexivity.
  - apply (Hstale (setDescription "late" (stamped 250 racedRecord)) 302 0%nat []);
      [reflexivity | vm_compute; discriminate].
Defined.

End storage_spec.

(** * Properties of the operation manager *)

Module process_spec.

Import storage process storage_spec.

(** ** Persisting a transition *)

Lemma setState_keepsIdentity (st : LastOperationState) :
  keepsIdentity (setState st).
Proof. intros o. split; reflexivity. Qed.

Lemma setDescription_keepsIdentity (d : string) :
  keepsIdentity (setDescription d).
Proof. intros o. split; reflexivity. Qed.

Lemma compose_keepsIdentity (f g : Operation -> Operation) :
  keepsIdentity f -> keepsIdentity g -> keepsIdentity (fun o => f (g o)).
Proof.
  intros Hf Hg o. destruct (Hf (g o)) as [-> ->]. apply Hg.
Qed.

Create HintDb identity.

#[local] Hint Resolve setState_keepsIdentity setDescription_keepsIdentity
  compose_keepsIdentity : identity.

Lemma isCurrent_transition (s : Store) (f : Operation -> Operation)
    (op : Operation) :
  keepsIdentity f -> isCurrent s op = true -> isCurrent s (f op) = true.
Proof.
  intros Hf. unfold isCurrent. now destruct (Hf op) as [-> ->].
Qed.

(** The transition of a current snapshot is written at the first attempt,
    whatever the retry bound. *)
Lemma persist_current (n : nat) (now : Time) (s : Store)
    (f : Operation -> Operation) (op : Operation) :
  keepsIdentity f ->
  isCurrent s op = true ->
  persist n now s f op
  = Stored (<[ID op := stamped now (f op)]> s, stamped now (f op)).
Proof.
  intros Hf Hc.
  assert (Hu := Update_current now s (f op) (isCurrent_transition s f op Hf Hc)).
  destruct (Hf op) as [Hid _]. rewrite Hid in Hu.
  destruct n; cbn [persist]; now rewrite Hu.
Qed.

(** A snapshot whose record is not in the store is never written. *)
Lemma persist_absent (n : nat) (now : Time) (s : Store)
    (f : Operation -> Operation) (op : Operation) :
  keepsIdentity f ->
  s !! ID op = None ->
  persist n now s f op = Rejected NotFound.
Proof.
  intros Hf Hl. destruct (Hf op) as [Hid _].
  destruct n; cbn [persist]; unfold Update; now rewrite Hid, Hl.
Qed.

(** A stale snapshot is written at the second attempt, from the record
    that is read again. *)
Lemma persist_reread (n : nat) (now : Time) (s : Store)
    (f : Operation -> Operation) (op cur : Operation) :
  keepsIdentity f ->
  s !! ID op = Some cur ->
  ID cur = ID op ->
  Version op <> Version cur ->
  persist (S n) now s f op
  = Stored (<[ID op := stamped now (f cur)]> s, stamped now (f cur)).
Proof.
  intros Hf Hl Hid Hv.
  assert (Hc : isCurrent s cur = true).
  { unfold isCurrent. rewrite Hid, Hl. apply Z.eqb_refl. }
  cbn [persist]. destruct (Hf op) as [Hfid Hfv].
  rewrite (Update_stale now s (f op) cur) by congruence.
  unfold Get. rewrite Hl.
  rewrite (persist_current n now s f cur Hf Hc). now rewrite Hid.
Qed.

(** Without a retry left, the stale snapshot is refused. *)
Lemma persist_conflict (now : Time) (s : Store)
    (f : Operation -> Operation) (op cur : Operation) :
  keepsIdentity f ->
  s !! ID op = Some cur ->
  Version op <> Version cur ->
  persist 0 now s f op = Rejected Conflict.
Proof.
  intros Hf Hl Hv. cbn [persist]. destruct (Hf op) as [Hfid Hfv].
  now rewrite (Update_stale now s (f op) cur) by congruence.
Qed.

(** ** The three transitions *)









Lemma retryDelay_nonpositive (elapsed retryInterval : Duration) :
  retryInterval < 0 -> retryDelay elapsed retryInterval < 0.
Proof.
  intros Hr. unfold retryDelay.
  pose proof (Z.mod_neg_bound elapsed retryInterval Hr). lia.
Qed.




(** Step 4 of Retry: the decision is logged, whether or not the record
    can be persisted. *)
Lemma RetryOperation_logged (om : UpgradeKymaOperationManager)
    (now : Time) (s : Store) (log : list logEntry) (op : Operation)
    (msg : string) (retryInterval maxTime : Duration) :
  (RetryOperation om now s log op msg retryInterval maxTime).1.2
  = log ++ [RetryDecision msg (now - UpdatedAt op) maxTime
              (retryPermitted (now - UpdatedAt op) maxTime)].
Proof.
  unfold RetryOperation.
  destruct (retryPermitted (now - UpdatedAt op) maxTime); [| reflexivity].
  destruct (persist _ _ _ _ _) as [[s' op'] | e]; reflexivity.
Qed.

(** [TestUpgradeKymaOperationManager_RetryOperation], second call: the
    operation handed back by the first call, its [UpdatedAt] moved back by
    one hour and one second, is retried once more. *)
Example RetryOperation_second_call :
  let om := NewUpgradeKymaOperationManager 3 in
  let op := fixRetriedOperation InProgress sampleNow in
  let r1 := RetryOperation om sampleNow (storeWith op) [] op "task failed"
              Hour (3 * Hour) in
  let op1 := replyOperation r1.2 in
  let waited :=
    mkOperation (ID op1) (Version op1) (InstanceID op1) (State op1)
      (Description op1) (CreatedAt op1) (UpdatedAt op1 - Hour - Second)
      (ProvisionerOperationID op1) in
  let r2 := RetryOperation om sampleNow r1.1.1 r1.1.2 waited "task failed"
              Hour (3 * Hour) in
  replyDelay r2.2 = Hour - Second /\
  replyError r2.2 = None /\
  State (replyOperation r2.2) = InProgress /\
  Version (replyOperation r2.2) = 2 /\
  length r2.1.2 = 2%nat.
Proof. vm_compute. repeat split. Qed.

End process_spec.

(** * More properties of the status column *)

Module selection_spec.

Import gopanic runtime command aggregator selection command_spec.

Local Open Scope string_scope.

(** ** When the selection returns *)

Lemma findLastOperation_Ok_presented (rt : RuntimeDTO) (c : candidate) :
  findLastOperation rt = Ok c ->
  presented (UpgradingKyma (Status rt)) /\
  presented (Unsuspension (Status rt)) /\
  presented (Suspension (Status rt)).
Proof.
  unfold findLastOperation, presented. intros H.
  destruct (Provisioning (Status rt)) as [p |]; [| discriminate H].
  cbn [deref mbind result_bind] in H.
  destruct (Data (UpgradingKyma (Status rt))) as [| u us],
    (Data (Unsuspension (Status rt))) as [| n ns],
    (Data (Suspension (Status rt))) as [| x xs],
    (0 <? Count (UpgradingKyma (Status rt)))%Z eqn:Eu,
    (0 <? Count (Unsuspension (Status rt)))%Z eqn:En,
    (0 <? Count (Suspension (Status rt)))%Z eqn:Es;
    cbn in H; try discriminate H;
    repeat split; intros Hc; try discriminate;
    apply Z.ltb_lt in Hc; congruence.
Qed.

(** X1: the selection returns exactly when the runtime has a Provisioning
    record and every list with a positive [Count] holds a record; in every
    other case it panics. *)
Theorem findLastOperation_returns_iff (rt : RuntimeDTO) :
  (exists c, findLastOperation rt = Ok c) <->
  Provisioning (Status rt) <> None /\
  presented (UpgradingKyma (Status rt)) /\
  presented (Unsuspension (Status rt)) /\
  presented (Suspension (Status rt)).
Proof.
  split.
  - intros [c H]. split.
    + now apply (findLastOperation_returns rt c).
    + now apply (findLastOperation_Ok_presented rt c).
  - intros (Hp & Hu & Hn & Hs).
    destruct (Provisioning (Status rt)) as [p |] eqn:E; [| congruence].
    eexists. now apply (findLastOperation_select rt p).
Qed.

(** A suspension list that announces a record and holds none makes the
    selection panic. *)
Example findLastOperation_miscounted :
  findLastOperation rtMiscounted = Panic IndexOutOfRange.
Proof. reflexivity. Qed.

(** ** Which record is selected *)

Lemma consider_tagged (c : candidate) (r : option Operation)
    (k : operationType) :
  replaceIfNewer c r k = foldl consider c (tagged k r).
Proof. destruct r; reflexivity. Qed.

(** The selection is the run of the guarded assignments over the
    contenders. *)
Lemma selectUpgradeFirst_foldl (p : Operation) (st : RuntimeStatus) :
  selectUpgradeFirst p st
  = foldl consider (hd (p, provision) (contenders p st))
      (tl (contenders p st)).
Proof.
  unfold selectUpgradeFirst, contenders. cbn [hd tl].
  now rewrite !foldl_app, <- !consider_tagged.
Qed.

(** A run of guarded assignments ends on the leftmost of the newest
    records. *)
Lemma foldl_consider_leftmostNewest (xs : list candidate) (c0 : candidate) :
  exists i, leftmostNewest (c0 :: xs) i (foldl consider c0 xs).
Proof.
  induction xs as [| x xs IH] using rev_ind.
  - exists 0%nat. repeat split.
    + intros [| j] y Hy; [| discriminate Hy]. injection Hy as <-. cbn. lia.
    + intros j y Hj. lia.
  - destruct IH as (i & Hi & Hle & Hlt). rewrite foldl_snoc.
    set (c := foldl consider c0 xs) in *.
    unfold consider, takeIfAfter.
    destruct (After (CreatedAt x.1) (CreatedAt c.1)) eqn:Ha.
    + apply After_spec in Ha. exists (Datatypes.length (c0 :: xs)).
      replace (x.1, x.2) with x by now destruct x.
      change (c0 :: xs ++ [x])%list with ((c0 :: xs) ++ [x])%list. repeat split.
      * rewrite lookup_app_r by lia. now rewrite Nat.sub_diag.
      * intros j y Hy. apply lookup_app_Some in Hy as [Hy | [_ Hy]].
        -- specialize (Hle j y Hy). lia.
        -- apply list_lookup_singleton_Some in Hy as [_ <-]. lia.
      * intros j y Hj Hy. rewrite lookup_app_l in Hy by exact Hj.
        specialize (Hle j y Hy). lia.
    + assert (Hx : (CreatedAt x.1 <= CreatedAt c.1)%Z).
      { unfold After in Ha. apply Z.ltb_ge in Ha. exact Ha. }
      exists i. change (c0 :: xs ++ [x])%list with ((c0 :: xs) ++ [x])%list.
      repeat split.
      * now apply lookup_app_l_Some.
      * intros j y Hy. apply lookup_app_Some in Hy as [Hy | [_ Hy]].
        -- now apply (Hle j y).
        -- now apply list_lookup_singleton_Some in Hy as [_ <-].
      * intros j y Hj Hy. apply (Hlt j y Hj).
        apply lookup_lt_Some in Hi.
        rewrite lookup_app_l in Hy; [exact Hy |].
        exact (Nat.lt_trans _ _ _ Hj Hi).
Qed.

(** X2: among the records that compete for the status, the selection
    returns one that no other was created after, under the kind of its
    list; of several records created at that same latest instant it
    returns the one considered first. *)
Theorem findLastOperation_leftmostNewest (rt : RuntimeDTO) (p : Operation) :
  Provisioning (Status rt) = Some p ->
  presented (UpgradingKyma (Status rt)) ->
  presented (Unsuspension (Status rt)) ->
  presented (Suspension (Status rt)) ->
  exists i c,
    findLastOperation rt = Ok c /\
    leftmostNewest (contenders p (Status rt)) i c.
Proof.
  intros Hp Hu Hn Hs.
  destruct (foldl_consider_leftmostNewest (tl (contenders p (Status rt)))
              (hd (p, provision) (contenders p (Status rt)))) as [i Hi].
  exists i, (selectUpgradeFirst p (Status rt)). split.
  - now apply findLastOperation_select.
  - rewrite selectUpgradeFirst_foldl. exact Hi.
Qed.

(** The suspension and the deprovisioning of [rtSuspendedAndDeprovisioned]
    were created at the same instant: the suspension is selected. *)
Lemma findLastOperation_leftmostNewest_witness :
  findLastOperation rtSuspendedAndDeprovisioned
    = Ok (op succeeded 30 "s", suspension) /\
  exists i c,
    findLastOperation rtSuspendedAndDeprovisioned = Ok c /\
    leftmostNewest
      (contenders (op succeeded 10 "p") (Status rtSuspendedAndDeprovisioned))
      i c.
Proof.
  split; [reflexivity |].
  apply (findLastOperation_leftmostNewest rtSuspendedAndDeprovisioned);
    [reflexivity | unfold presented; simpl; first [intros _; discriminate | lia] ..].
Defined.

(** ** What the selection reads *)

(** X3: of each list the selection reads whether [Count] is positive and,
    if so, the first record of [Data]: the records after the first one are
    never consulted, and a list whose [Count] is not positive counts as
    empty whatever [Data] holds. *)
Theorem findLastOperation_firstOnly (rt : RuntimeDTO) :
  findLastOperation (firstOnlyStatus rt) = findLastOperation rt.
Proof.
  unfold findLastOperation, firstOnlyStatus, firstOnly.
  cbn [Status Provisioning Deprovisioning UpgradingKyma Suspension Unsuspension].
  destruct (Provisioning (Status rt)) as [p |]; [| reflexivity].
  destruct (0 <? Count (UpgradingKyma (Status rt)))%Z,
    (Data (UpgradingKyma (Status rt))) as [| u us],
    (0 <? Count (Unsuspension (Status rt)))%Z,
    (Data (Unsuspension (Status rt))) as [| n ns],
    (0 <? Count (Suspension (Status rt)))%Z,
    (Data (Suspension (Status rt))) as [| x xs];
    reflexivity.
Qed.

(** The upgrade of [rtUnsorted] created at 40 stands second in its list and
    the unsuspension created at 50 comes with a [Count] of 0: the upgrade
    created at 20 is selected. *)
Example findLastOperation_unsorted :
  findLastOperation rtUnsorted = Ok (op succeeded 20 "u1", upgradeKyma) /\
  runtimeStatus rtUnsorted = Ok "succeeded".
Proof. split; reflexivity. Qed.

(** ** The labels of the status column *)

Lemma replaceIfNewer_kind (c : candidate) (r : option Operation)
    (k : operationType) :
  (replaceIfNewer c r k).2 = c.2 \/ (replaceIfNewer c r k).2 = k.
Proof.
  unfold replaceIfNewer. destruct r as [d |]; [| now left].
  destruct (After (CreatedAt d) (CreatedAt c.1)); [now right | now left].
Qed.

Lemma replaceIfPresent_kind (c : candidate) (r : option Operation)
    (k : operationType) :
  (replaceIfPresent c r k).2 = c.2 \/ (replaceIfPresent c r k).2 = k.
Proof. destruct r; [now right | now left]. Qed.

(** The kind that the selection returns is one of the five declared
    ones. *)
Lemma findLastOperation_kind (rt : RuntimeDTO) (c : candidate) :
  findLastOperation rt = Ok c -> In c.2 tableKinds.
Proof.
  intros H.
  destruct (findLastOperation_Ok_presented rt c H) as (Hu & Hn & Hs).
  destruct (Provisioning (Status rt)) as [p |] eqn:Hp;
    [| now apply findLastOperation_returns in H].
  rewrite (findLastOperation_select rt p Hp Hu Hn Hs) in H.
  injection H as <-. unfold selectUpgradeFirst.
  repeat match goal with
  | |- context [replaceIfNewer ?c ?r ?k] =>
      destruct (replaceIfNewer_kind c r k) as [-> | ->]
  | |- context [replaceIfPresent ?c ?r ?k] =>
      destruct (replaceIfPresent_kind c r k) as [-> | ->]
  end; cbn; tauto.
Qed.

Lemma operationStatusToString_label (o : Operation) (t : operationType) :
  In t tableKinds -> In (operationStatusToString o t) statusLabels.
Proof.
  intros Ht. unfold operationStatusToString.
  destruct (String.eqb (State o) succeeded),
    (String.eqb (State o) failed), (String.eqb (State o) inProgress);
    cbn in Ht; decompose [or] Ht; subst; cbn; tauto.
Qed.

(** X4: whatever the runtime, the status column shows one of thirteen
    labels, or the command panics; a failed operation is never shown with
    a kind of its own making, and an operation whose state is none of in
    progress, succeeded and failed is shown as succeeded. *)
Theorem runtimeStatus_label (rt : RuntimeDTO) (l : string) :
  runtimeStatus rt = Ok l ->
  In l statusLabels /\
  exists o k,
    findLastOperation rt = Ok (o, k) /\
    In k tableKinds /\
    (In (State o) tableStates \/ l = "succeeded").
Proof.
  unfold runtimeStatus. intros H.
  destruct (findLastOperation rt) as [[o k] | e] eqn:Hf; [| discriminate H].
  cbn in H. injection H as <-.
  pose proof (findLastOperation_kind rt (o, k) Hf) as Hk. split.
  - now apply operationStatusToString_label.
  - exists o, k. repeat split; [exact Hk |].
    unfold operationStatusToString, tableStates.
    destruct (String.eqb_spec (State o) succeeded) as [-> | _];
      [left; cbn; tauto |].
    destruct (String.eqb_spec (State o) failed) as [-> | _];
      [left; cbn; tauto |].
    destruct (String.eqb_spec (State o) inProgress) as [-> | _];
      [left; cbn; tauto | now right].
Qed.

Lemma runtimeStatus_label_witness :
  In "deprovisioning" statusLabels /\
  exists o k,
    findLastOperation rtUpgradeThenDeprovision = Ok (o, k) /\
    In k tableKinds /\
    (In (State o) tableStates \/ "deprovisioning" = "succeeded").
Proof.
  apply (runtimeStatus_label rtUpgradeThenDeprovision "deprovisioning").
  reflexivity.
Defined.

(** X5: the label starts with failed exactly when the state of the
    operation is failed, whatever the kind. *)
Theorem operationStatusToString_failed_iff (o : Operation)
    (t : operationType) :
  String.prefix "failed" (operationStatusToString o t) = true <->
  State o = failed.
Proof.
  unfold operationStatusToString.
  destruct (String.eqb_spec (State o) succeeded) as [Hs | _].
  - rewrite Hs.
    destruct (String.eqb t deprovision), (String.eqb t suspension);
      split; discriminate.
  - destruct (String.eqb_spec (State o) failed) as [Hf | Hf].
    + split; [intros _; exact Hf | intros _; reflexivity].
    + destruct (String.eqb (State o) inProgress);
        [destruct (String.eqb t provision), (String.eqb t unsuspension),
           (String.eqb t deprovision), (String.eqb t suspension),
           (String.eqb t upgradeKyma) |];
        split; first [discriminate | intros E; contradiction].
Qed.

End selection_spec.

(** * Properties of the in-memory application repository *)

Module application_spec.

Import gopanic application.

Section repository.

Context {Application LabelFilter : Type}.
Variable ID : Application -> string.

#[local] Abbreviation repository := (@inMemoryRepository Application).
#[local] Abbreviation reply := (repository * option error)%type.

Lemma repository_eta (r : repository) : mkRepository (store r) = r.
Proof. now destruct r. Qed.

Lemma Create_Some (r : repository) (item : Application) :
  Create ID r (Some item)
  = Ok (mkRepository (<[ID item := item]> (store r)), None).
Proof. reflexivity. Qed.

Lemma Delete_Some (r : repository) (item : Application) :
  Delete ID r (Some item)
  = Ok (mkRepository (delete (ID item) (store r)), None).
Proof. reflexivity. Qed.

(** X6: after [Create] or [Update] of an application, [GetByID] finds it
    under its ID, whether or not the ID was taken before, and finds under
    every other ID what it found before; neither call returns an error. *)
Theorem GetByID_after_write (r r' : repository) (item : Application)
    (e : option error) :
  Create ID r (Some item) = Ok (r', e) \/
  Update ID r (Some item) = Ok (r', e) ->
  e = None /\
  GetByID r' (ID item) = (Some item, None) /\
  (forall id, id <> ID item -> GetByID r' id = GetByID r id).
Proof.
  intros [H | H]; injection H as <- <-; unfold GetByID; cbn [store];
    (split; [reflexivity |]); split.
  - now rewrite lookup_insert_eq.
  - intros id Hid. now rewrite lookup_insert_ne.
  - now rewrite lookup_insert_eq.
  - intros id Hid. now rewrite lookup_insert_ne.
Qed.


(** X8: after [Delete] of an application, [GetByID] finds nothing under its
    ID, whatever was kept there, and under every other ID what it found
    before; deleting under an ID that is not taken changes nothing and
    reports no error. *)
Theorem GetByID_after_Delete (r r' : repository) (item : Application)
    (e : option error) :
  Delete ID r (Some item) = Ok (r', e) ->
  e = None /\
  GetByID r' (ID item) = (None, None) /\
  (forall id, id <> ID item -> GetByID r' id = GetByID r id) /\
  (GetByID r (ID item) = (None, None) -> r' = r).
Proof.
  intros H. injection H as <- <-. unfold GetByID. cbn [store].
  split; [reflexivity |]. split; [now rewrite lookup_delete_eq |]. split.
  - intros id Hid. now rewrite lookup_delete_ne.
  - intros Hn. injection Hn as Hn. rewrite (delete_id _ _ Hn).
    apply repository_eta.
Qed.

(** X9: [Create] under an ID that is not taken, followed by [Delete] of the
    same application, leaves the repository as it was. *)
Theorem Delete_undoes_Create (r : repository) (item : Application) :
  GetByID r (ID item) = (None, None) ->
  andThen (Create ID r (Some item)) (fun r1 => Delete ID r1 (Some item))
  = Ok (r, None).
Proof.
  intros Hn. injection Hn as Hn. rewrite Create_Some. cbn.
  rewrite delete_insert_eq, (delete_id _ _ Hn). now rewrite repository_eta.
Qed.

(** ** Listing *)

Lemma collect_app (entries : list (string * Application))
    (acc : list Application) :
  foldl (fun items kv => items ++ [kv.2]) acc entries = acc ++ entries.*2.
Proof.
  revert acc. induction entries as [| kv entries IH]; intros acc; cbn.
  - now rewrite app_nil_r.
  - rewrite IH. now rewrite <- app_assoc.
Qed.

Lemma collect_values (entries : list (string * Application)) :
  collect entries = entries.*2.
Proof. unfold collect. now rewrite collect_app. Qed.

(** The entries in the order in which the map hands them out are one of the
    orders that [range] can take. *)
Lemma rangeOf_store (r : repository) : rangeOf r (map_to_list (store r)).
Proof. unfold rangeOf. reflexivity. Qed.

Lemma rangeOf_length (r : repository) (entries : list (string * Application)) :
  rangeOf r entries -> length (collect entries) = size (store r).
Proof.
  unfold rangeOf. intros Hp. rewrite collect_values, length_fmap, Hp.
  apply length_map_to_list.
Qed.

(** X10: [List] returns every application of the repository, each one
    once, whatever the filter, the page size and the cursor are:
    [TotalCount] is the number of IDs taken, also when it exceeds the page
    size, no further page is announced and no error is returned. *)
Theorem List_everything (r : repository)
    (entries : list (string * Application))
    (filter : list (option LabelFilter)) (pageSize : option Z)
    (cursor : option string) :
  rangeOf r entries ->
  let page := (List r entries filter pageSize cursor).1 in
  (forall x, x ∈ Data page <-> exists id, GetByID r id = (Some x, None)) /\
  length (Data page) = size (store r) /\
  TotalCount page = Z.of_nat (size (store r)) /\
  HasNextPage (PageInfo page) = false /\
  (List r entries filter pageSize cursor).2 = None.
Proof.
  intros Hr. cbn. rewrite (rangeOf_length r entries Hr).
  repeat split; try reflexivity.
  - rewrite collect_values. intros Hx.
    apply list_elem_of_fmap in Hx as ([id y] & -> & Hy).
    unfold rangeOf in Hr. rewrite Hr in Hy.
    apply elem_of_map_to_list in Hy. exists id. unfold GetByID.
    now rewrite Hy.
  - intros [id Hid]. unfold GetByID in Hid. injection Hid as Hid.
    rewrite collect_values. apply list_elem_of_fmap. exists (id, x).
    split; [reflexivity |]. unfold rangeOf in Hr. rewrite Hr.
    now apply elem_of_map_to_list.
Qed.

(** X11: the number of applications that [List] reports grows by one with
    a [Create] under an ID that is not taken and stays as it is with a
    [Create] under an ID that is; it shrinks by one with a [Delete] under
    an ID that is taken and stays as it is with a [Delete] under an ID
    that is not. *)
Theorem TotalCount_after_write (r r' : repository) (item : Application)
    (e : option error) (entries entries' : list (string * Application))
    (filter : list (option LabelFilter)) (pageSize : option Z)
    (cursor : option string) :
  rangeOf r entries ->
  rangeOf r' entries' ->
  let before := TotalCount (List r entries filter pageSize cursor).1 in
  let after := TotalCount (List r' entries' filter pageSize cursor).1 in
  let taken := if (GetByID r (ID item)).1 is Some _ then 1 else 0 in
  (Create ID r (Some item) = Ok (r', e) -> after = before + 1 - taken) /\
  (Delete ID r (Some item) = Ok (r', e) -> after = before - taken).
Proof.
  intros Hr Hr'. cbn.
  rewrite (rangeOf_length r entries Hr), (rangeOf_length r' entries' Hr').
  split; intros H; injection H as <- <-; cbn [store].
  - rewrite map_size_insert.
    destruct (store r !! ID item) as [x |]; cbn; lia.
  - rewrite map_size_delete.
    destruct (store r !! ID item) as [x |] eqn:Hx; cbn; [| lia].
    assert (size (store r) <> 0)%nat; [| lia].
    intros E. apply map_size_empty_inv in E. rewrite E in Hx.
    now rewrite lookup_empty in Hx.
Qed.

(** ** Calls under different IDs *)

(** X12: calls that write under different IDs can be swapped: two
    [Create]s, and a [Create] and a [Delete], leave the same repository in
    either order. *)
Theorem writes_commute (r : repository) (a b : Application) :
  ID a <> ID b ->
  andThen (Create ID r (Some a)) (fun r1 => Create ID r1 (Some b))
  = andThen (Create ID r (Some b)) (fun r1 => Create ID r1 (Some a)) /\
  andThen (Create ID r (Some a)) (fun r1 => Delete ID r1 (Some b))
  = andThen (Delete ID r (Some b)) (fun r1 => Create ID r1 (Some a)).
Proof.
  intros Hab. rewrite !Create_Some, !Delete_Some. cbn. split.
  - now rewrite insert_insert_ne.
  - now rewrite delete_insert_ne by congruence.
Qed.

(** ** What the repository keeps *)

Lemma reachable_keyed_store (r : repository) :
  reachable ID r ->
  forall id x, store r !! id = Some x -> ID x = id.
Proof.
  induction 1 as [| r r' item e _ IH H | r r' item e _ IH H
                  | r r' item e _ IH H];
    intros id x Hx.
  - cbn in Hx. now rewrite lookup_empty in Hx.
  - destruct item as [y |]; [| discriminate H]. injection H as <- <-.
    cbn in Hx. apply lookup_insert_Some in Hx as [[<- <-] | [_ Hx]];
      [reflexivity | now apply IH].
  - destruct item as [y |]; [| discriminate H]. injection H as <- <-.
    cbn in Hx. apply lookup_insert_Some in Hx as [[<- <-] | [_ Hx]];
      [reflexivity | now apply IH].
  - destruct item as [y |]; [| discriminate H]. injection H as <- <-.
    cbn in Hx. apply lookup_delete_Some in Hx as [_ Hx]. now apply IH.
Qed.

(** X13: in a repository built by [NewRepository], [Create], [Update] and
    [Delete], an application is found under its own ID only, and the
    applications that [List] returns have pairwise different IDs. *)
Theorem reachable_keyed (r : repository)
    (entries : list (string * Application))
    (filter : list (option LabelFilter)) (pageSize : option Z)
    (cursor : option string) :
  reachable ID r ->
  rangeOf r entries ->
  (forall id x, GetByID r id = (Some x, None) -> ID x = id) /\
  NoDup (map ID (Data (List r entries filter pageSize cursor).1)).
Proof.
  intros Hreach Hr. pose proof (reachable_keyed_store r Hreach) as Hk. split.
  - intros id x Hx. unfold GetByID in Hx. injection Hx as Hx.
    now apply Hk.
  - cbn. rewrite collect_values.
    assert (Hmap : map ID entries.*2 = entries.*1).
    { assert (He : forall kv, kv ∈ entries -> ID kv.2 = kv.1).
      { intros [id x] Hin. unfold rangeOf in Hr. rewrite Hr in Hin.
        apply elem_of_map_to_list in Hin. now apply Hk. }
      clear Hr. induction entries as [| kv l IHl]; [reflexivity |].
      cbn. rewrite (He kv) by constructor. f_equal. apply IHl.
      intros kv' Hin. apply He. now constructor. }
    rewrite Hmap. unfold rangeOf in Hr. rewrite Hr.
    apply NoDup_fst_map_to_list.
Qed.

End repository.

(** ** The properties on the sample applications *)

Lemma GetByID_after_write_witness :
  exists r',
    Update sampleID oneApplication (Some wordpress2) = Ok (r', None) /\
    GetByID r' "app-1" = (Some wordpress2, None) /\
    GetByID r' "app-2" = GetByID oneApplication "app-2".
Proof.
  exists (mkRepository (<["app-1"%string := wordpress2]> (store oneApplication))).
  split; [reflexivity |].
  destruct (GetByID_after_write sampleID oneApplication
              (mkRepository (<["app-1"%string := wordpress2]> (store oneApplication)))
              wordpress2 None) as (_ & Hfound & Hframe);
    [right; reflexivity |].
  split; [exact Hfound | apply Hframe; discriminate].
Defined.


Lemma GetByID_after_Delete_witness :
  exists r',
    Delete sampleID twoApplications (Some wordpress2) = Ok (r', None) /\
    GetByID r' "app-1" = (None, None) /\
    GetByID r' "app-2" = GetByID twoApplications "app-2".
Proof.
  exists (mkRepository (delete "app-1"%string (store twoApplications))).
  split; [reflexivity |].
  destruct (GetByID_after_Delete sampleID twoApplications
              (mkRepository (delete "app-1"%string (store twoApplications)))
              wordpress2 None) as (_ & Hgone & Hframe & _);
    [reflexivity |].
  split; [exact Hgone | apply Hframe; discriminate].
Defined.

Lemma Delete_undoes_Create_witness :
  andThen (Create sampleID oneApplication (Some commerce))
    (fun r1 => Delete sampleID r1 (Some commerce))
  = Ok (oneApplication, None).
Proof.
  apply (Delete_undoes_Create sampleID oneApplication commerce).
  vm_compute. reflexivity.
Defined.

(** Two applications are kept and one is asked for: both are returned. *)
Lemma List_everything_witness :
  let page :=
    (List (LabelFilter := string) twoApplications
       (map_to_list (store twoApplications)) [] (Some 1) None).1 in
  length (Data page) = 2%nat /\
  TotalCount page = 2 /\
  HasNextPage (PageInfo page) = false.
Proof.
  destruct (List_everything (LabelFilter := string) twoApplications
              (map_to_list (store twoApplications)) [] (Some 1) None)
    as (_ & Hlen & Hcount & Hnext & _); [apply rangeOf_store |].
  split; [exact Hlen |]. split; [exact Hcount | exact Hnext].
Defined.

Lemma TotalCount_after_write_witness :
  TotalCount
    (List (LabelFilter := string) twoApplications
       (map_to_list (store twoApplications)) [] None None).1
  = TotalCount
      (List (LabelFilter := string) oneApplication
         (map_to_list (store oneApplication)) [] None None).1 + 1 - 0.
Proof.
  destruct (TotalCount_after_write (LabelFilter := string) sampleID
              oneApplication twoApplications commerce None
              (map_to_list (store oneApplication))
              (map_to_list (store twoApplications)) [] None None)
    as [Hcreate _]; [apply rangeOf_store | apply rangeOf_store |].
  apply Hcreate. reflexivity.
Defined.

Lemma writes_commute_witness :
  andThen (Create sampleID NewRepository (Some wordpress))
    (fun r1 => Create sampleID r1 (Some commerce))
  = andThen (Create sampleID NewRepository (Some commerce))
      (fun r1 => Create sampleID r1 (Some wordpress)).
Proof.
  apply (writes_commute sampleID NewRepository wordpress commerce).
  discriminate.
Defined.

Lemma reachable_keyed_witness :
  NoDup
    (map sampleID
       (Data
          (List (LabelFilter := string) twoApplications
             (map_to_list (store twoApplications)) [] None None).1)).
Proof.
  apply (reachable_keyed (LabelFilter := string) sampleID twoApplications
           (map_to_list (store twoApplications)) [] None None);
    [| apply rangeOf_store].
  apply (reachable_create sampleID oneApplication twoApplications
           (Some commerce) None); [| reflexivity].
  apply (reachable_create sampleID NewRepository oneApplication
           (Some wordpress) None); [| reflexivity].
  apply reachable_new.
Defined.

End application_spec.
